(** * Closed-form fixed-income formulas of [functions/fixed_income.py]

    The module is a collection of stateless numeric functions: simple,
    compound and continuous interest, perpetuities, annuities and the
    effective rate.

    Numbers.  Python's [int] and [float] arguments are idealised as real
    numbers ([R]): every arithmetic operation is exact, so rounding,
    overflow, infinities and NaN are outside the main development.  What is
    kept of the language is its control behaviour:
    - true division raises [ZeroDivisionError] on a zero divisor;
    - [**] follows the case analysis of [float.__pow__];
    - a function either returns an object or raises.
    The last part of the definitions, [Binary64], re-states the functions
    that use only [+], [*] and [/] over IEEE-754 binary64, where they can
    be evaluated, to show where the exact model and the machine differ. *)

From Stdlib Require Import Reals Lra String ZArith Lia PrimFloat.

Local Open Scope R_scope.

(** ** Python run-time behaviour *)

Module Py.

(** The two exception classes the module can produce. *)
Inductive exception : Type :=
| ZeroDivisionError
| ValueError (msg : string).

(** Outcome of evaluating an expression or calling a function.
    [Complex] records that [**] was applied to a negative base and a
    non-integral exponent: Python then continues in complex arithmetic,
    which this development does not follow any further. *)
Inductive result (A : Type) : Type :=
| Returned (a : A)
| Raised (e : exception)
| Complex.

Arguments Returned {A} a.
Arguments Raised {A} e.
Arguments Complex {A}.

Definition bind {A B : Type} (c : result A) (k : A -> result B) : result B :=
  match c with
  | Returned a => k a
  | Raised e => Raised e
  | Complex => Complex
  end.

(** [x / y]: raises on a zero divisor, for ints and floats alike. *)
Definition truediv (x y : R) : result R :=
  if Req_dec_T y 0 then Raised ZeroDivisionError else Returned (x / y).

(** [y] is a whole number ([iw == floor(iw)] in [float_pow]). *)
Definition is_integral (y : R) : {y = IZR (Int_part y)} + {y <> IZR (Int_part y)} :=
  Req_dec_T y (IZR (Int_part y)).

(** [x ** y], by the cases of [float_pow]:
    anything to the power 0 is 1; 0 to a negative power raises, to a
    positive power is 0; a negative base takes whole exponents only. *)
Definition pow (x y : R) : result R :=
  if Req_dec_T y 0 then Returned 1
  else if Req_dec_T x 0 then
    (if Rlt_dec y 0 then Raised ZeroDivisionError else Returned 0)
  else if Rlt_dec x 0 then
    (if is_integral y then Returned (powerRZ x (Int_part y)) else Complex)
  else Returned (Rpower x y).

(** [math.exp]. *)
Definition math_exp (x : R) : R := exp x.

(** Objects a function of the module can hand back to its caller. *)
Inductive object : Type :=
| Float (x : R)
| ExceptionObject (e : exception).

(** A keyword argument left out by the caller takes its default. *)
Definition arg {A : Type} (default : A) (given : option A) : A :=
  match given with
  | Some a => a
  | None => default
  end.

End Py.

Import Py.

Declare Scope py_scope.
Delimit Scope py_scope with py.
Notation "x <- c ;; k" := (bind c (fun x => k))
  (at level 61, c at next level, right associativity) : py_scope.
Local Open Scope py_scope.
Local Open Scope string_scope.

(** ** The functions of the module *)

(** [return P*(1 + t*r)] *)
Definition simple_interest_fv (P r t : R) : R :=
  P * (1 + t * r).

(** [return V_t * (1/(1 + t * r))] *)
Definition simple_interest_pv (V_t r t : R) : result R :=
  q <- truediv 1 (1 + t * r) ;;
  Returned (V_t * q).

(** [return C / r] *)
Definition perpetuity_pv (C r : R) : result R :=
  truediv C r.

(** [return P*(1 + r/m)**(t*m)] *)
Definition compounded_interest_fv (P r t m : R) : result R :=
  q <- truediv r m ;;
  p <- pow (1 + q) (t * m) ;;
  Returned (P * p).

(** [return V_t*(1/(1 + r/m)**(t*m))] *)
Definition compounded_interest_pv (V_t r t m : R) : result R :=
  q <- truediv r m ;;
  p <- pow (1 + q) (t * m) ;;
  d <- truediv 1 p ;;
  Returned (V_t * d).

(** [return (1 - (1/(1+r)**n)) / r]; [n] is an [int]. *)
Definition _annuity_pv_factor (r : R) (n : Z) : result R :=
  p <- pow (1 + r) (IZR n) ;;
  d <- truediv 1 p ;;
  truediv (1 - d) r.

(** [return C * _annuity_pv_factor(r,n)] *)
Definition annuity_pv (C r : R) (n : Z) : result R :=
  f <- _annuity_pv_factor r n ;;
  Returned (C * f).

(** [return P/_annuity_pv_factor(r, n)] *)
Definition annuity_payment (P r : R) (n : Z) : result R :=
  f <- _annuity_pv_factor r n ;;
  truediv P f.

(** [return math.exp(t*r)*P] *)
Definition continuous_compounding_fv (P r t : R) : R :=
  math_exp (t * r) * P.

(** [return V_t * math.exp(-t*r)] *)
Definition continuous_compounding_pv (V_t r t : R) : R :=
  V_t * math_exp (- t * r).

(** [def effective_rate(r, m=1, method="continuous")]: the last branch
    builds a [ValueError] and hands it back with [return]. *)
Definition effective_rate (r : R) (m : option R) (method : option string)
  : result object :=
  let m := arg 1 m in
  let method := arg "continuous" method in
  if String.eqb method "continuous" then
    Returned (Float (math_exp r - 1))
  else if String.eqb method "periodic" then
    q <- truediv r m ;;
    p <- pow (1 + q) m ;;
    Returned (Float (p - 1))
  else
    Returned (ExceptionObject (ValueError "The compounding method is not valid")).

(** ** Vocabulary of the properties *)

(** A quantity [f r t] grows (weakly, strictly) with the product [t*r]. *)
Definition increasing_in_tr (f : R -> R -> R) : Prop :=
  forall r1 t1 r2 t2, t1 * r1 <= t2 * r2 -> f r1 t1 <= f r2 t2.

Definition strictly_increasing_in_tr (f : R -> R -> R) : Prop :=
  forall r1 t1 r2 t2, t1 * r1 < t2 * r2 -> f r1 t1 < f r2 t2.

Definition decreasing_in_tr (f : R -> R -> R) : Prop :=
  forall r1 t1 r2 t2, t1 * r1 <= t2 * r2 -> f r2 t2 <= f r1 t1.

Definition strictly_decreasing_in_tr (f : R -> R -> R) : Prop :=
  forall r1 t1 r2 t2, t1 * r1 < t2 * r2 -> f r2 t2 < f r1 t1.

(** The call handed a number back to its caller. *)
Definition returns_number (c : result object) : Prop :=
  exists x : R, c = Returned (Float x).

(** The call signalled a failure to its caller. *)
Definition raises (c : result object) : Prop :=
  exists e : exception, c = Raised e.

(** The stream of payments an annuity stands for, each discounted to the
    present: [C/(1+r) + C/(1+r)^2 + ... + C/(1+r)^n] (the sum the docstring
    of [_annuity_pv_factor] refers to). *)
Fixpoint discounted_payments (C r : R) (n : nat) : R :=
  match n with
  | O => 0
  | S k => discounted_payments C r k + C / (1 + r) ^ S k
  end.

(** ** The same formulas over IEEE-754 binary64 *)

Module Binary64.

Local Open Scope float_scope.

(** [float_div]: a divisor comparing equal to zero raises. *)
Definition truediv (x y : float) : result float :=
  if PrimFloat.eqb y 0 then Raised ZeroDivisionError else Returned (x / y).

Definition simple_interest_fv (P r t : float) : float :=
  P * (1 + t * r).

Definition simple_interest_pv (V_t r t : float) : result float :=
  q <- truediv 1 (1 + t * r) ;;
  Returned (V_t * q).

Definition perpetuity_pv (C r : float) : result float :=
  truediv C r.

End Binary64.

(** ** Run-time behaviour: basic facts *)

(** Settle the tests on reals met in a goal, closing the impossible
    branches by linear arithmetic. *)
Ltac settle_tests :=
  repeat match goal with
    | |- context [Req_dec_T ?a ?b] => destruct (Req_dec_T a b); try lra
    | |- context [Rlt_dec ?a ?b] => destruct (Rlt_dec a b); try lra
    end.

Lemma truediv_nonzero (x y : R) :
  y <> 0 -> truediv x y = Returned (x / y).
Proof.
  intros Hy. unfold truediv.
  destruct (Req_dec_T y 0) as [E | _]; [contradiction | reflexivity].
Qed.

Lemma truediv_zero (x : R) : truediv x 0 = Raised ZeroDivisionError.
Proof.
  unfold truediv.
  destruct (Req_dec_T 0 0) as [_ | N]; [reflexivity | now elim N].
Qed.

Lemma truediv_raises_iff (x y : R) :
  truediv x y = Raised ZeroDivisionError <-> y = 0.
Proof.
  unfold truediv. destruct (Req_dec_T y 0) as [E | N]; split; intros H;
    try reflexivity; try assumption; try discriminate; contradiction.
Qed.

Lemma Int_part_IZR (n : Z) : Int_part (IZR n) = n.
Proof.
  symmetry. apply Int_part_spec. lra.
Qed.

Lemma whole_is_integral (n : Z) (A : Type) (a b : A) :
  (if is_integral (IZR n) then a else b) = a.
Proof.
  destruct (is_integral (IZR n)) as [_ | N]; [reflexivity |].
  elim N. now rewrite Int_part_IZR.
Qed.

Lemma pow_zero_exponent (x : R) : pow x 0 = Returned 1.
Proof.
  unfold pow. destruct (Req_dec_T 0 0) as [_ | N]; [reflexivity | now elim N].
Qed.

Lemma pow_positive_base (x y : R) :
  0 < x -> pow x y = Returned (Rpower x y).
Proof.
  intros Hx. unfold pow.
  destruct (Req_dec_T y 0) as [-> | _].
  - now rewrite Rpower_O.
  - settle_tests. reflexivity.
Qed.

Lemma pow_zero_base_negative (y : R) :
  y < 0 -> pow 0 y = Raised ZeroDivisionError.
Proof.
  intros Hy. unfold pow. settle_tests. reflexivity.
Qed.

Lemma pow_zero_base_positive (y : R) :
  0 < y -> pow 0 y = Returned 0.
Proof.
  intros Hy. unfold pow. settle_tests. reflexivity.
Qed.

(** With a whole exponent and a base other than zero, [**] is the integer
    power, for bases of either sign. *)
Lemma pow_whole_exponent (x : R) (n : Z) :
  x <> 0 -> pow x (IZR n) = Returned (powerRZ x n).
Proof.
  intros Hx. unfold pow.
  destruct (Req_dec_T (IZR n) 0) as [E | _].
  - apply eq_IZR_R0 in E. subst n. reflexivity.
  - destruct (Req_dec_T x 0) as [E | _]; [contradiction |].
    destruct (Rlt_dec x 0) as [Hneg | Hpos].
    + rewrite whole_is_integral, Int_part_IZR. reflexivity.
    + rewrite powerRZ_Rpower by lra. reflexivity.
Qed.

Lemma pow_one_base (y : R) : pow 1 y = Returned 1.
Proof.
  rewrite pow_positive_base by lra.
  unfold Rpower. now rewrite ln_1, Rmult_0_r, exp_0.
Qed.

(** ** Effective rate *)

(** A method name other than the two known ones reaches the last branch,
    whatever the rate and the frequency. *)
Lemma effective_rate_unknown_method (r : R) (m : option R) (method : string) :
  method <> "continuous" -> method <> "periodic" ->
  effective_rate r m (Some method)
  = Returned (ExceptionObject (ValueError "The compounding method is not valid")).
Proof.
  intros Hc Hp. unfold effective_rate. cbn [arg].
  apply String.eqb_neq in Hc, Hp. now rewrite Hc, Hp.
Qed.

(** C1.  On the method name ["bogus"] the call does not signal a failure:
    nothing is raised, and the caller receives, as an ordinary return
    value, the [ValueError] object that the last branch builds. *)
Theorem effective_rate_bogus_returns_error_object :
  effective_rate 0.05 (Some 1) (Some "bogus")
  = Returned (ExceptionObject (ValueError "The compounding method is not valid"))
  /\ ~ raises (effective_rate 0.05 (Some 1) (Some "bogus")).
Proof.
  split.
  - apply effective_rate_unknown_method; discriminate.
  - intros [e He].
    rewrite effective_rate_unknown_method in He; discriminate.
Qed.

(** C3, as stated, fails at frequency 0 with the periodic method: the
    division [r/m] raises, so no number is returned. *)
Lemma effective_rate_periodic_zero_frequency :
  effective_rate 0.1 (Some 0) (Some "periodic") = Raised ZeroDivisionError
  /\ ~ returns_number (effective_rate 0.1 (Some 0) (Some "periodic")).
Proof.
  assert (E : effective_rate 0.1 (Some 0) (Some "periodic")
              = Raised ZeroDivisionError).
  { unfold effective_rate. cbn [arg String.eqb Ascii.eqb Bool.eqb].
    cbn. now rewrite truediv_zero. }
  split; [exact E |].
  intros [x Hx]. rewrite E in Hx. discriminate.
Qed.

(** C3 (amended).  The continuous method returns [e^r - 1] for every rate
    and frequency.  The periodic method returns [(1 + r/m)^m - 1] for every
    frequency other than 0 whose growth factor [1 + r/m] is positive, and
    also for every whole frequency [k <> 0] with [1 + r/k <> 0]; at
    frequency 0 it raises [ZeroDivisionError].  Left out, the frequency is
    1 and the method is continuous. *)
Theorem effective_rate_formulas (r m : R) (k : Z) :
  effective_rate r (Some m) (Some "continuous") = Returned (Float (exp r - 1))
  /\ (m <> 0 -> 0 < 1 + r / m ->
      effective_rate r (Some m) (Some "periodic")
      = Returned (Float (Rpower (1 + r / m) m - 1)))
  /\ (k <> 0%Z -> 1 + r / IZR k <> 0 ->
      effective_rate r (Some (IZR k)) (Some "periodic")
      = Returned (Float (powerRZ (1 + r / IZR k) k - 1)))
  /\ effective_rate r (Some 0) (Some "periodic") = Raised ZeroDivisionError
  /\ effective_rate r None None = Returned (Float (exp r - 1))
  /\ effective_rate r (Some m) None = effective_rate r (Some m) (Some "continuous")
  /\ (forall method,
        effective_rate r None (Some method) = effective_rate r (Some 1) (Some method)).
Proof.
  repeat split.
  - intros Hm Hbase. unfold effective_rate. cbn.
    rewrite truediv_nonzero by assumption. cbn [bind].
    rewrite pow_positive_base by assumption. reflexivity.
  - intros Hk Hbase. unfold effective_rate. cbn.
    assert (Hm : IZR k <> 0) by (now apply not_0_IZR).
    rewrite truediv_nonzero by assumption. cbn [bind].
    rewrite pow_whole_exponent by assumption. reflexivity.
  - unfold effective_rate. cbn. now rewrite truediv_zero.
Qed.

Lemma effective_rate_formulas_witness :
  (12 <> 0 /\ 0 < 1 + 0.12 / 12 /\ 12%Z <> 0%Z /\ 1 + 0.12 / IZR 12 <> 0)
  /\ effective_rate 0.12 (Some 12) (Some "periodic")
     = Returned (Float (Rpower (1 + 0.12 / 12) 12 - 1))
  /\ effective_rate 0.12 (Some (IZR 12)) (Some "periodic")
     = Returned (Float (powerRZ (1 + 0.12 / IZR 12) 12 - 1)).
Proof.
  split; [repeat split; (lra || lia) |].
  split.
  - apply (effective_rate_formulas 0.12 12 12); lra.
  - apply (effective_rate_formulas 0.12 12 12); (lra || lia).
Defined.

(** C10.  With the continuous method the frequency plays no part: any two
    frequencies, given or left out, lead to the same result. *)
Theorem effective_rate_continuous_ignores_frequency (r : R) (m1 m2 : option R) :
  effective_rate r m1 (Some "continuous") = effective_rate r m2 (Some "continuous").
Proof.
  unfold effective_rate. cbn [arg].
  change ("continuous" =? "continuous")%string with true.
  reflexivity.
Qed.

(** ** Division by zero *)

(** C2, as stated, fails: with rate 0 the perpetuity does not complete;
    it raises [ZeroDivisionError] and no value, infinite or not, returns. *)
Lemma perpetuity_pv_zero_rate_raises :
  perpetuity_pv 100 0 = Raised ZeroDivisionError
  /\ ~ (exists v : R, perpetuity_pv 100 0 = Returned v).
Proof.
  assert (E : perpetuity_pv 100 0 = Raised ZeroDivisionError)
    by apply truediv_zero.
  split; [exact E |].
  intros [v Hv]. rewrite E in Hv. discriminate.
Qed.

Lemma annuity_pv_factor_zero_rate (n : Z) :
  _annuity_pv_factor 0 n = Raised ZeroDivisionError.
Proof.
  unfold _annuity_pv_factor.
  replace (1 + 0) with 1 by lra.
  rewrite pow_one_base. cbn [bind].
  rewrite truediv_nonzero by lra. cbn [bind].
  apply truediv_zero.
Qed.

(** C2 (amended).  On every division-by-zero input the call raises
    [ZeroDivisionError], and it does so in all the formulas alike:
    the perpetuity at rate 0, both compound-interest functions at
    frequency 0, the annuity factor, present value and payment at rate 0. *)
Theorem division_by_zero_raises_uniformly (C P V_t r t : R) (n : Z) :
  perpetuity_pv C 0 = Raised ZeroDivisionError
  /\ compounded_interest_fv P r t 0 = Raised ZeroDivisionError
  /\ compounded_interest_pv V_t r t 0 = Raised ZeroDivisionError
  /\ _annuity_pv_factor 0 n = Raised ZeroDivisionError
  /\ annuity_pv C 0 n = Raised ZeroDivisionError
  /\ annuity_payment P 0 n = Raised ZeroDivisionError.
Proof.
  repeat split.
  - apply truediv_zero.
  - unfold compounded_interest_fv. now rewrite truediv_zero.
  - unfold compounded_interest_pv. now rewrite truediv_zero.
  - apply annuity_pv_factor_zero_rate.
  - unfold annuity_pv. now rewrite annuity_pv_factor_zero_rate.
  - unfold annuity_payment. now rewrite annuity_pv_factor_zero_rate.
Qed.

(** ** Simple interest *)

Lemma simple_interest_pv_defined (V_t r t : R) :
  1 + t * r <> 0 ->
  simple_interest_pv V_t r t = Returned (V_t * (1 / (1 + t * r))).
Proof.
  intros H. unfold simple_interest_pv.
  now rewrite truediv_nonzero.
Qed.

(** C4.  The future value is [P * (1 + t*r)]; and wherever [1 + t*r] is
    not zero the present value, computed as a product with the reciprocal,
    is the quotient [V_t / (1 + t*r)]. *)
Theorem simple_interest_formulas (P V_t r t : R) :
  simple_interest_fv P r t = P * (1 + t * r)
  /\ (1 + t * r <> 0 ->
      simple_interest_pv V_t r t = Returned (V_t / (1 + t * r))).
Proof.
  split; [reflexivity |].
  intros H. rewrite simple_interest_pv_defined by assumption.
  f_equal. now field.
Qed.

Lemma simple_interest_formulas_witness :
  1 + 2 * 0.05 <> 0
  /\ simple_interest_pv 1100 0.05 2 = Returned (1100 / (1 + 2 * 0.05)).
Proof.
  split; [lra |].
  apply (simple_interest_formulas 0 1100 0.05 2). lra.
Defined.

(** C5.  Discounting the future value of [P] gives [P] back, wherever
    [1 + t*r] is not zero. *)
Theorem simple_interest_pv_fv (P r t : R) :
  1 + t * r <> 0 ->
  simple_interest_pv (simple_interest_fv P r t) r t = Returned P.
Proof.
  intros H. rewrite simple_interest_pv_defined by assumption.
  unfold simple_interest_fv. f_equal. now field.
Qed.

Lemma simple_interest_pv_fv_witness :
  1 + 2 * 0.05 <> 0
  /\ simple_interest_pv (simple_interest_fv 1000 0.05 2) 0.05 2 = Returned 1000.
Proof.
  split; [lra |].
  apply simple_interest_pv_fv. lra.
Defined.

(** ** Compound interest *)

Lemma Rpower_nonzero_exp (x y : R) : Rpower x y <> 0.
Proof.
  unfold Rpower. apply Rgt_not_eq, exp_pos.
Qed.

Lemma compounded_interest_fv_defined (P r t m : R) :
  m <> 0 -> 0 < 1 + r / m ->
  compounded_interest_fv P r t m = Returned (P * Rpower (1 + r / m) (t * m)).
Proof.
  intros Hm Hbase. unfold compounded_interest_fv.
  rewrite truediv_nonzero by assumption. cbn [bind].
  now rewrite pow_positive_base.
Qed.

Lemma compounded_interest_pv_defined (V_t r t m : R) :
  m <> 0 -> 0 < 1 + r / m ->
  compounded_interest_pv V_t r t m
  = Returned (V_t * (1 / Rpower (1 + r / m) (t * m))).
Proof.
  intros Hm Hbase. unfold compounded_interest_pv.
  rewrite truediv_nonzero by assumption. cbn [bind].
  rewrite pow_positive_base by assumption. cbn [bind].
  rewrite truediv_nonzero by apply Rpower_nonzero_exp.
  reflexivity.
Qed.

(** C6.  For a rate and a frequency other than 0 with a positive growth
    factor [1 + r/m], discounting the compounded value of [P] over the
    same [(r, t, m)] gives [P] back. *)
Theorem compounded_interest_pv_fv (P r t m : R) :
  r <> 0 -> m <> 0 -> 0 < 1 + r / m ->
  (v <- compounded_interest_fv P r t m ;; compounded_interest_pv v r t m)
  = Returned P.
Proof.
  intros _ Hm Hbase.
  rewrite compounded_interest_fv_defined by assumption. cbn [bind].
  rewrite compounded_interest_pv_defined by assumption.
  f_equal. field. apply Rpower_nonzero_exp.
Qed.

Lemma compounded_interest_pv_fv_witness :
  (0.06 <> 0 /\ 4 <> 0 /\ 0 < 1 + 0.06 / 4)
  /\ (v <- compounded_interest_fv 1000 0.06 3 4 ;;
      compounded_interest_pv v 0.06 3 4) = Returned 1000.
Proof.
  split; [repeat split; lra |].
  apply compounded_interest_pv_fv; lra.
Defined.

(** ** Annuities *)

(** Away from the rates 0 and -1 the factor is defined, in the shape the
    code computes it. *)
Lemma annuity_pv_factor_defined (r : R) (n : Z) :
  r <> 0 -> 1 + r <> 0 ->
  _annuity_pv_factor r n = Returned ((1 - 1 / powerRZ (1 + r) n) / r).
Proof.
  intros Hr Hbase. unfold _annuity_pv_factor.
  rewrite pow_whole_exponent by assumption. cbn [bind].
  rewrite truediv_nonzero by (now apply powerRZ_NOR). cbn [bind].
  now apply truediv_nonzero.
Qed.

(** C7, as stated, fails at rate -1 with one payment: [(1+r)**n] is 0 and
    its reciprocal raises, although the rate is not 0. *)
Lemma annuity_pv_factor_rate_minus_one :
  -1 <> 0
  /\ _annuity_pv_factor (-1) 1 = Raised ZeroDivisionError
  /\ ~ (exists f : R, _annuity_pv_factor (-1) 1 = Returned f).
Proof.
  assert (E : _annuity_pv_factor (-1) 1 = Raised ZeroDivisionError).
  { unfold _annuity_pv_factor.
    replace (1 + -1) with 0 by lra.
    rewrite pow_zero_base_positive by lra. cbn [bind].
    now rewrite truediv_zero. }
  split; [lra |]. split; [exact E |].
  intros [f Hf]. rewrite E in Hf. discriminate.
Qed.

(** C7 (amended).  For every rate other than 0 and -1 and every
    non-negative number of payments, the factor is
    [(1 - (1+r)^(-n)) / r]; with no payment at all the factor is 0 for
    every rate other than 0, the rate -1 included. *)
Theorem annuity_pv_factor_formula (r : R) (n : Z) :
  r <> 0 -> (0 <= n)%Z ->
  (1 + r <> 0 ->
   _annuity_pv_factor r n = Returned ((1 - powerRZ (1 + r) (- n)) / r))
  /\ _annuity_pv_factor r 0 = Returned 0.
Proof.
  intros Hr _. split.
  - intros Hbase. rewrite annuity_pv_factor_defined by assumption.
    rewrite powerRZ_neg'. f_equal. field.
    repeat split; (assumption || now apply powerRZ_NOR).
  - unfold _annuity_pv_factor.
    rewrite pow_zero_exponent. cbn [bind].
    rewrite truediv_nonzero by lra. cbn [bind].
    rewrite truediv_nonzero by assumption.
    f_equal. now field.
Qed.

Lemma annuity_pv_factor_formula_witness :
  (0.05 <> 0 /\ (0 <= 10)%Z /\ 1 + 0.05 <> 0)
  /\ _annuity_pv_factor 0.05 10
     = Returned ((1 - powerRZ (1 + 0.05) (- 10)) / 0.05)
  /\ _annuity_pv_factor 0.05 0 = Returned 0.
Proof.
  split; [repeat split; (lra || lia) |].
  split.
  - apply (annuity_pv_factor_formula 0.05 10); (lra || lia).
  - apply (annuity_pv_factor_formula 0.05 10); (lra || lia).
Defined.

(** The factor vanishes exactly when [(1+r)^n] is 1. *)
Lemma annuity_factor_value_nonzero (r p : R) :
  r <> 0 -> p <> 0 -> p <> 1 -> (1 - 1 / p) / r <> 0.
Proof.
  intros Hr Hp Hp1 E.
  apply Hp1.
  assert (E' : (1 - 1 / p) / r * (r * p) = 0) by (rewrite E; ring).
  field_simplify in E'; [lra | tauto].
Qed.

Lemma annuity_payment_of_pv (C r : R) (n : Z) :
  r <> 0 -> 1 + r <> 0 -> powerRZ (1 + r) n <> 1 ->
  (pv <- annuity_pv C r n ;; annuity_payment pv r n) = Returned C.
Proof.
  intros Hr Hbase Hp.
  assert (Hf : (1 - 1 / powerRZ (1 + r) n) / r <> 0).
  { apply annuity_factor_value_nonzero; try assumption.
    now apply powerRZ_NOR. }
  unfold annuity_pv, annuity_payment.
  rewrite annuity_pv_factor_defined by assumption. cbn [bind].
  rewrite truediv_nonzero by assumption.
  set (f := (1 - 1 / powerRZ (1 + r) n) / r) in *.
  f_equal. now field.
Qed.

(** A positive growth factor other than 1 has no positive whole power
    equal to 1. *)
Lemma powerRZ_positive_exponent_not_one (x : R) (n : Z) :
  0 < x -> x <> 1 -> (1 <= n)%Z -> powerRZ x n <> 1.
Proof.
  intros Hx Hx1 Hn.
  assert (Hk : (0 < Z.to_nat n)%nat) by lia.
  replace n with (Z.of_nat (Z.to_nat n)) by lia.
  rewrite <- pow_powerRZ.
  destruct (Rlt_dec x 1) as [Hlt | Hge].
  - apply Rlt_not_eq.
    apply pow_lt_1_compat; [lra | assumption].
  - apply Rgt_not_eq.
    apply Rlt_pow_R1; [lra | assumption].
Qed.

(** The conventional domain: rates above -100%. *)
Corollary annuity_payment_of_pv_rate_above_minus_one (C r : R) (n : Z) :
  r <> 0 -> -1 < r -> (1 <= n)%Z ->
  (pv <- annuity_pv C r n ;; annuity_payment pv r n) = Returned C.
Proof.
  intros Hr Hlow Hn.
  apply annuity_payment_of_pv; try lra.
  apply powerRZ_positive_exponent_not_one; lra || assumption.
Qed.

(** C8, as stated, fails at rate -2 with two payments: [(1+r)^2] is 1,
    the factor is 0, the present value is 0 and the payment divides by
    the factor. *)
Lemma annuity_payment_pv_rate_minus_two :
  (-2 <> 0 /\ (1 <= 2)%Z)
  /\ (pv <- annuity_pv 100 (-2) 2 ;; annuity_payment pv (-2) 2)
     = Raised ZeroDivisionError
  /\ (pv <- annuity_pv 100 (-2) 2 ;; annuity_payment pv (-2) 2)
     <> Returned 100.
Proof.
  assert (F : _annuity_pv_factor (-2) 2 = Returned 0).
  { rewrite annuity_pv_factor_defined by lra.
    assert (H : powerRZ (1 + -2) 2 = 1) by (unfold powerRZ; simpl; lra).
    rewrite H. f_equal. lra. }
  assert (E : (pv <- annuity_pv 100 (-2) 2 ;; annuity_payment pv (-2) 2)
              = Raised ZeroDivisionError).
  { unfold annuity_pv, annuity_payment. rewrite F. cbn [bind].
    apply truediv_zero. }
  split; [split; (lra || lia) |].
  split; [exact E |].
  rewrite E. discriminate.
Qed.

(** C8 (amended).  For every payment [C], every rate other than 0 and -1
    and every number of payments [n >= 1] with [(1+r)^n <> 1], the payment
    computed from the present value of [C] is [C]. *)
Theorem annuity_payment_pv (C r : R) (n : Z) :
  r <> 0 -> (1 <= n)%Z -> 1 + r <> 0 -> powerRZ (1 + r) n <> 1 ->
  (pv <- annuity_pv C r n ;; annuity_payment pv r n) = Returned C.
Proof.
  intros Hr _ Hbase Hp. now apply annuity_payment_of_pv.
Qed.

Lemma annuity_payment_pv_witness :
  (0.05 <> 0 /\ (1 <= 10)%Z /\ 1 + 0.05 <> 0 /\ powerRZ (1 + 0.05) 10 <> 1)
  /\ (pv <- annuity_pv 100 0.05 10 ;; annuity_payment pv 0.05 10) = Returned 100.
Proof.
  assert (H : powerRZ (1 + 0.05) 10 <> 1)
    by (apply powerRZ_positive_exponent_not_one; (lra || lia)).
  split; [repeat split; (lra || lia || exact H) |].
  apply annuity_payment_pv; (lra || lia || exact H).
Defined.

(** ** Continuous compounding *)

Lemma exp_weakly_increasing (x y : R) : x <= y -> exp x <= exp y.
Proof.
  intros [Hlt | ->]; [left; now apply exp_increasing | right; reflexivity].
Qed.

(** C9, as stated, fails for a negative principal: with [P = -1] the
    future value falls from [-1] to [-e] while [t*r] rises from 0 to 1;
    and with [V_t = -1] the present value rises from [-1] to [-1/e]. *)
Lemma continuous_compounding_negative_amount_not_monotone :
  ~ increasing_in_tr (continuous_compounding_fv (-1))
  /\ ~ decreasing_in_tr (continuous_compounding_pv (-1)).
Proof.
  split; intros H; specialize (H 0 0 1 1 ltac:(lra)); revert H;
    unfold continuous_compounding_fv, continuous_compounding_pv, math_exp.
  - replace (0 * 0) with 0 by lra. replace (1 * 1) with 1 by lra.
    rewrite exp_0.
    pose proof (exp_increasing 0 1 ltac:(lra)) as E. rewrite exp_0 in E.
    lra.
  - replace (- 0 * 0) with 0 by lra. replace (- (1) * 1) with (-1) by lra.
    rewrite exp_0.
    pose proof (exp_increasing (-1) 0 ltac:(lra)) as E. rewrite exp_0 in E.
    lra.
Qed.

(** C9 (amended).  For every fixed principal [P >= 0] the future value
    [P * e^(t*r)] does not fall when [t*r] rises, and rises strictly when
    [P > 0]; for every fixed [V_t >= 0] the present value [V_t * e^(-t*r)]
    does not rise when [t*r] rises, and falls strictly when [V_t > 0]. *)
Theorem continuous_compounding_monotone (P V_t : R) :
  (0 <= P -> increasing_in_tr (continuous_compounding_fv P))
  /\ (0 < P -> strictly_increasing_in_tr (continuous_compounding_fv P))
  /\ (0 <= V_t -> decreasing_in_tr (continuous_compounding_pv V_t))
  /\ (0 < V_t -> strictly_decreasing_in_tr (continuous_compounding_pv V_t)).
Proof.
  unfold increasing_in_tr, strictly_increasing_in_tr,
    decreasing_in_tr, strictly_decreasing_in_tr,
    continuous_compounding_fv, continuous_compounding_pv, math_exp.
  repeat split; intros Hsign r1 t1 r2 t2 Horder.
  - apply Rmult_le_compat_r; [assumption |].
    now apply exp_weakly_increasing.
  - apply Rmult_lt_compat_r; [assumption |].
    now apply exp_increasing.
  - apply Rmult_le_compat_l; [assumption |].
    apply exp_weakly_increasing. lra.
  - apply Rmult_lt_compat_l; [assumption |].
    apply exp_increasing. lra.
Qed.

Lemma continuous_compounding_monotone_witness :
  (0 <= 1000 /\ 0 < 1000)
  /\ increasing_in_tr (continuous_compounding_fv 1000)
  /\ strictly_increasing_in_tr (continuous_compounding_fv 1000)
  /\ decreasing_in_tr (continuous_compounding_pv 1000)
  /\ strictly_decreasing_in_tr (continuous_compounding_pv 1000).
Proof.
  split; [split; lra |].
  repeat split; apply (continuous_compounding_monotone 1000 1000); lra.
Defined.

(** The two functions undo one another for the same [(r, t)]. *)
Lemma continuous_compounding_pv_fv (P r t : R) :
  continuous_compounding_pv (continuous_compounding_fv P r t) r t = P.
Proof.
  unfold continuous_compounding_pv, continuous_compounding_fv, math_exp.
  replace (- t * r) with (- (t * r)) by ring.
  rewrite exp_Ropp. field. apply Rgt_not_eq, exp_pos.
Qed.

(** ** Where binary64 departs from exact arithmetic *)

(** The product with the rounded reciprocal is not always the correctly
    rounded quotient: at [V_t = 49], [r = 1], [t = 48] the function yields
    the float just below 1, while [49 / 49] is 1. *)
Remark binary64_reciprocal_form_rounds :
  Binary64.simple_interest_pv 49 1 48 = Returned 0x1.fffffffffffffp-1%float
  /\ Binary64.truediv 49 (1 + 48 * 1) = Returned 1%float.
Proof.
  split; vm_compute; reflexivity.
Qed.

(** Division by a zero rate raises in binary64 as well; no infinity is
    produced. *)
Remark binary64_perpetuity_zero_rate :
  Binary64.perpetuity_pv 100 0 = Raised ZeroDivisionError.
Proof.
  vm_compute. reflexivity.
Qed.

(** ** Further run-time facts *)

(** A natural exponent never fails: [x ** n] is the [n]-fold product,
    whatever the sign of the base. *)
Lemma pow_natural_exponent (x : R) (n : nat) :
  pow x (INR n) = Returned (x ^ n).
Proof.
  destruct n as [| k].
  - cbn [INR]. now rewrite pow_zero_exponent.
  - destruct (Req_dec_T x 0) as [-> | Hx].
    + rewrite pow_zero_base_positive by (apply lt_0_INR; lia).
      now rewrite pow_i by lia.
    + rewrite INR_IZR_INZ, pow_whole_exponent by assumption.
      now rewrite <- pow_powerRZ.
Qed.

Lemma pow_one_exponent (x : R) : pow x 1 = Returned x.
Proof.
  change 1 with (INR 1) at 1. rewrite pow_natural_exponent.
  f_equal. ring.
Qed.

Lemma truediv_by_one (x : R) : truediv x 1 = Returned x.
Proof.
  rewrite truediv_nonzero by lra. f_equal. field.
Qed.

(** ** Continuous compounding: inverses and composition *)

(** X1.  The two continuous-compounding functions undo one another, in
    either order, for every amount, rate and time. *)
Theorem continuous_compounding_inverse (A r t : R) :
  continuous_compounding_pv (continuous_compounding_fv A r t) r t = A
  /\ continuous_compounding_fv (continuous_compounding_pv A r t) r t = A.
Proof.
  split; [apply continuous_compounding_pv_fv |].
  unfold continuous_compounding_pv, continuous_compounding_fv, math_exp.
  replace (- t * r) with (- (t * r)) by ring.
  rewrite exp_Ropp. field. apply Rgt_not_eq, exp_pos.
Qed.

(** X2.  Growing an amount for [t1] years and the outcome for [t2] more
    years is growing it for [t1 + t2] years. *)
Theorem continuous_compounding_fv_splits (P r t1 t2 : R) :
  continuous_compounding_fv (continuous_compounding_fv P r t1) r t2
  = continuous_compounding_fv P r (t1 + t2).
Proof.
  unfold continuous_compounding_fv, math_exp.
  rewrite Rmult_plus_distr_r, exp_plus. ring.
Qed.

(** ** Simple interest: failure, inverse, comparison *)

(** X3.  The present value under simple interest raises exactly when
    [t*r = -1]; it raises nothing but [ZeroDivisionError] and never leaves
    the reals. *)
Theorem simple_interest_pv_failure (V_t r t : R) :
  (simple_interest_pv V_t r t = Raised ZeroDivisionError <-> t * r = -1)
  /\ (forall e, simple_interest_pv V_t r t = Raised e -> e = ZeroDivisionError)
  /\ simple_interest_pv V_t r t <> Complex.
Proof.
  unfold simple_interest_pv, truediv.
  destruct (Req_dec_T (1 + t * r) 0) as [E | N]; cbn [bind].
  - repeat split; try (intros; lra); try discriminate.
    intros e He. now inversion He.
  - repeat split; try discriminate.
    intros E. elim N. lra.
Qed.

Lemma simple_interest_pv_failure_witness :
  1 * -1 = -1
  /\ simple_interest_pv 100 (-1) 1 = Raised ZeroDivisionError.
Proof.
  split; [lra |].
  apply (simple_interest_pv_failure 100 (-1) 1). lra.
Defined.

(** X4.  Present value then future value is the identity as well. *)
Theorem simple_interest_fv_pv (V_t r t : R) :
  1 + t * r <> 0 ->
  (p <- simple_interest_pv V_t r t ;; Returned (simple_interest_fv p r t))
  = Returned V_t.
Proof.
  intros H. rewrite simple_interest_pv_defined by assumption. cbn [bind].
  unfold simple_interest_fv. f_equal. now field.
Qed.

Lemma simple_interest_fv_pv_witness :
  1 + 2 * 0.05 <> 0
  /\ (p <- simple_interest_pv 1100 0.05 2 ;;
      Returned (simple_interest_fv p 0.05 2)) = Returned 1100.
Proof.
  split; [lra |].
  apply simple_interest_fv_pv. lra.
Defined.

(** ** Compound interest: edge cases, composition, comparison *)

(** X5.  Over no time at all nothing accrues: for every frequency other
    than 0 both compound-interest functions hand the amount back, even
    when the growth factor [1 + r/m] is zero or negative. *)
Theorem compounded_interest_zero_time (A r m : R) :
  m <> 0 ->
  compounded_interest_fv A r 0 m = Returned A
  /\ compounded_interest_pv A r 0 m = Returned A.
Proof.
  intros Hm. unfold compounded_interest_fv, compounded_interest_pv.
  rewrite truediv_nonzero by assumption. cbn [bind].
  rewrite Rmult_0_l, pow_zero_exponent. cbn [bind].
  rewrite truediv_by_one. cbn [bind].
  split; f_equal; ring.
Qed.

Lemma compounded_interest_zero_time_witness :
  4 <> 0
  /\ compounded_interest_fv 1000 (-8) 0 4 = Returned 1000
  /\ compounded_interest_pv 1000 (-8) 0 4 = Returned 1000.
Proof.
  split; [lra |].
  apply compounded_interest_zero_time. lra.
Defined.

(** X6.  Over one year with annual compounding, compound and simple
    interest agree, for every principal and every rate. *)
Theorem compounded_one_year_is_simple (P r : R) :
  compounded_interest_fv P r 1 1 = Returned (simple_interest_fv P r 1).
Proof.
  unfold compounded_interest_fv, simple_interest_fv.
  rewrite truediv_by_one. cbn [bind].
  rewrite Rmult_1_l, pow_one_exponent. cbn [bind].
  f_equal. ring.
Qed.

(** Annual compounding over a whole number of years always returns. *)
Lemma compounded_interest_fv_whole_years (P r : R) (n : nat) :
  compounded_interest_fv P r (INR n) 1 = Returned (P * (1 + r) ^ n).
Proof.
  unfold compounded_interest_fv.
  rewrite truediv_by_one. cbn [bind].
  rewrite Rmult_1_r, pow_natural_exponent. reflexivity.
Qed.

Lemma bernoulli (x : R) (n : nat) :
  -1 <= x -> 1 + INR n * x <= (1 + x) ^ n.
Proof.
  intros Hx. induction n as [| k IH].
  - cbn. lra.
  - rewrite S_INR. cbn [Rpow_def.pow].
    assert (Hk : 0 <= INR k) by apply pos_INR.
    nra.
Qed.

(** X7.  With annual compounding over a whole number of years, a
    non-negative principal at a rate of at least -100% grows to no less
    than it does under simple interest. *)
Theorem compounded_at_least_simple (P r : R) (n : nat) :
  0 <= P -> -1 <= r ->
  exists v, compounded_interest_fv P r (INR n) 1 = Returned v
            /\ simple_interest_fv P r (INR n) <= v.
Proof.
  intros HP Hr. exists (P * (1 + r) ^ n).
  split; [apply compounded_interest_fv_whole_years |].
  unfold simple_interest_fv.
  apply Rmult_le_compat_l; [assumption |].
  now apply bernoulli.
Qed.

Lemma compounded_at_least_simple_witness :
  (0 <= 1000 /\ -1 <= 0.05)
  /\ exists v, compounded_interest_fv 1000 0.05 (INR 3) 1 = Returned v
               /\ simple_interest_fv 1000 0.05 (INR 3) <= v.
Proof.
  split; [split; lra |].
  apply compounded_at_least_simple; lra.
Defined.

(** X8.  Compounding for [t1] years and the outcome for [t2] more years
    is compounding for [t1 + t2] years, at the same rate and frequency. *)
Theorem compounded_interest_fv_splits (P r t1 t2 m : R) :
  m <> 0 -> 0 < 1 + r / m ->
  (v <- compounded_interest_fv P r t1 m ;; compounded_interest_fv v r t2 m)
  = compounded_interest_fv P r (t1 + t2) m.
Proof.
  intros Hm Hbase.
  rewrite !compounded_interest_fv_defined by assumption. cbn [bind].
  rewrite compounded_interest_fv_defined by assumption.
  rewrite Rmult_plus_distr_r, Rpower_plus. f_equal. ring.
Qed.

Lemma compounded_interest_fv_splits_witness :
  (4 <> 0 /\ 0 < 1 + 0.06 / 4)
  /\ (v <- compounded_interest_fv 1000 0.06 1 4 ;;
      compounded_interest_fv v 0.06 2 4)
     = compounded_interest_fv 1000 0.06 (1 + 2) 4.
Proof.
  split; [split; lra |].
  apply compounded_interest_fv_splits; lra.
Defined.

(** X9.  Present value then future value is the identity as well. *)
Theorem compounded_interest_fv_pv (V_t r t m : R) :
  m <> 0 -> 0 < 1 + r / m ->
  (p <- compounded_interest_pv V_t r t m ;; compounded_interest_fv p r t m)
  = Returned V_t.
Proof.
  intros Hm Hbase.
  rewrite compounded_interest_pv_defined by assumption. cbn [bind].
  rewrite compounded_interest_fv_defined by assumption.
  f_equal. field. apply Rpower_nonzero_exp.
Qed.

Lemma compounded_interest_fv_pv_witness :
  (4 <> 0 /\ 0 < 1 + 0.06 / 4)
  /\ (p <- compounded_interest_pv 1000 0.06 3 4 ;;
      compounded_interest_fv p 0.06 3 4) = Returned 1000.
Proof.
  split; [split; lra |].
  apply compounded_interest_fv_pv; lra.
Defined.

(** ** Annuities and perpetuities *)

Lemma annuity_pv_defined (C r : R) (n : Z) :
  r <> 0 -> 1 + r <> 0 ->
  annuity_pv C r n = Returned (C * ((1 - 1 / powerRZ (1 + r) n) / r)).
Proof.
  intros Hr Hbase. unfold annuity_pv.
  now rewrite annuity_pv_factor_defined.
Qed.

Lemma geometric_discounting (C r : R) (n : nat) :
  r <> 0 -> 1 + r <> 0 ->
  C * ((1 - 1 / (1 + r) ^ n) / r) = discounted_payments C r n.
Proof.
  intros Hr Hbase. induction n as [| k IH].
  - cbn. field. assumption.
  - cbn [discounted_payments]. rewrite <- IH.
    assert (Hk : (1 + r) ^ k <> 0) by now apply pow_nonzero.
    cbn [Rpow_def.pow]. field. repeat split; assumption.
Qed.

Lemma annuity_pv_discounted_payments (C r : R) (n : nat) :
  r <> 0 -> 1 + r <> 0 ->
  annuity_pv C r (Z.of_nat n) = Returned (discounted_payments C r n).
Proof.
  intros Hr Hbase.
  rewrite annuity_pv_defined by assumption.
  rewrite <- pow_powerRZ. f_equal.
  now apply geometric_discounting.
Qed.

(** X10.  For every rate other than 0 and -1, the present value of an
    annuity of [n] payments is the sum of the payments, each discounted
    over its own number of periods: [C/(1+r) + ... + C/(1+r)^n]. *)
Theorem annuity_pv_is_sum_of_discounted_payments (C r : R) (n : nat) :
  r <> 0 -> 1 + r <> 0 ->
  annuity_pv C r (Z.of_nat n) = Returned (discounted_payments C r n).
Proof.
  intros Hr Hbase. now apply annuity_pv_discounted_payments.
Qed.

Lemma annuity_pv_is_sum_of_discounted_payments_witness :
  (0.05 <> 0 /\ 1 + 0.05 <> 0)
  /\ annuity_pv 100 0.05 (Z.of_nat 2)
     = Returned (0 + 100 / (1 + 0.05) ^ 1 + 100 / (1 + 0.05) ^ 2).
Proof.
  split; [split; lra |].
  apply (annuity_pv_is_sum_of_discounted_payments 100 0.05 2); lra.
Defined.

(** X11.  An annuity is a perpetuity bought now less the same perpetuity
    deferred by [n] periods: for every rate other than 0 and -1,
    [annuity_pv(C, r, n)] equals [perpetuity_pv(C, r)] minus that value
    discounted with annual compounding over [n] years. *)
Theorem annuity_is_perpetuity_less_deferred (C r : R) (n : Z) :
  r <> 0 -> 1 + r <> 0 ->
  annuity_pv C r n
  = (p <- perpetuity_pv C r ;;
     d <- compounded_interest_pv p r (IZR n) 1 ;;
     Returned (p - d)).
Proof.
  intros Hr Hbase.
  assert (Hp : powerRZ (1 + r) n <> 0) by now apply powerRZ_NOR.
  rewrite annuity_pv_defined by assumption.
  unfold perpetuity_pv, compounded_interest_pv.
  rewrite truediv_nonzero by assumption. cbn [bind].
  rewrite truediv_by_one. cbn [bind].
  rewrite Rmult_1_r, pow_whole_exponent by assumption. cbn [bind].
  rewrite truediv_nonzero by assumption. cbn [bind].
  f_equal. field. split; assumption.
Qed.

Lemma annuity_is_perpetuity_less_deferred_witness :
  (0.05 <> 0 /\ 1 + 0.05 <> 0)
  /\ annuity_pv 100 0.05 10
     = (p <- perpetuity_pv 100 0.05 ;;
        d <- compounded_interest_pv p 0.05 (IZR 10) 1 ;;
        Returned (p - d)).
Proof.
  split; [split; lra |].
  apply annuity_is_perpetuity_less_deferred; lra.
Defined.

Lemma annuity_pv_factor_no_payment (r : R) :
  r <> 0 -> _annuity_pv_factor r 0 = Returned 0.
Proof.
  intros Hr. unfold _annuity_pv_factor.
  rewrite pow_zero_exponent. cbn [bind].
  rewrite truediv_by_one. cbn [bind].
  rewrite truediv_nonzero by assumption.
  f_equal. now field.
Qed.

(** X12.  With no payment at all, the payment for a principal cannot be
    computed: [annuity_payment(P, r, 0)] raises [ZeroDivisionError] for
    every principal and every rate. *)
Theorem annuity_payment_no_payment_raises (P r : R) :
  annuity_payment P r 0 = Raised ZeroDivisionError.
Proof.
  unfold annuity_payment.
  destruct (Req_dec_T r 0) as [-> | Hr].
  - now rewrite annuity_pv_factor_zero_rate.
  - rewrite annuity_pv_factor_no_payment by assumption. cbn [bind].
    apply truediv_zero.
Qed.

(** X13.  Payment then present value is the identity as well: wherever
    the rate is neither 0 nor -1 and [(1+r)^n] is not 1, the present value
    of the payment computed for [P] is [P]. *)
Theorem annuity_pv_of_payment (P r : R) (n : Z) :
  r <> 0 -> 1 + r <> 0 -> powerRZ (1 + r) n <> 1 ->
  (c <- annuity_payment P r n ;; annuity_pv c r n) = Returned P.
Proof.
  intros Hr Hbase Hp.
  assert (Hf : (1 - 1 / powerRZ (1 + r) n) / r <> 0).
  { apply annuity_factor_value_nonzero; try assumption.
    now apply powerRZ_NOR. }
  unfold annuity_payment.
  rewrite annuity_pv_factor_defined by assumption. cbn [bind].
  rewrite truediv_nonzero by assumption. cbn [bind].
  rewrite annuity_pv_defined by assumption.
  set (f := (1 - 1 / powerRZ (1 + r) n) / r) in *.
  f_equal. now field.
Qed.

Lemma annuity_pv_of_payment_witness :
  (0.05 <> 0 /\ 1 + 0.05 <> 0 /\ powerRZ (1 + 0.05) 10 <> 1)
  /\ (c <- annuity_payment 1000 0.05 10 ;; annuity_pv c 0.05 10)
     = Returned 1000.
Proof.
  assert (H : powerRZ (1 + 0.05) 10 <> 1)
    by (apply powerRZ_positive_exponent_not_one; (lra || lia)).
  split; [repeat split; (lra || exact H) |].
  apply annuity_pv_of_payment; (lra || exact H).
Defined.

(** X14.  For a positive payment and a positive rate, one more payment
    makes the annuity worth strictly more, and no number of payments
    makes it worth as much as the perpetuity. *)
Theorem annuity_grows_below_perpetuity (C r : R) (n : nat) :
  0 < C -> 0 < r ->
  exists a a' p,
    annuity_pv C r (Z.of_nat n) = Returned a
    /\ annuity_pv C r (Z.of_nat (S n)) = Returned a'
    /\ perpetuity_pv C r = Returned p
    /\ a < a' /\ a' < p.
Proof.
  intros HC Hr.
  assert (Hx : 0 < (1 + r) ^ S n) by (apply pow_lt; lra).
  assert (Hterm : 0 < C / (1 + r) ^ S n) by now apply Rdiv_lt_0_compat.
  exists (discounted_payments C r n), (discounted_payments C r (S n)), (C / r).
  repeat split.
  - apply annuity_pv_discounted_payments; lra.
  - apply annuity_pv_discounted_payments; lra.
  - unfold perpetuity_pv. apply truediv_nonzero. lra.
  - cbn [discounted_payments]. lra.
  - rewrite <- geometric_discounting by lra.
    set (y := (1 + r) ^ S n) in *.
    assert (Hgap : C / r - C * ((1 - 1 / y) / r) = C / (r * y))
      by (field; split; lra).
    assert (Hpos : 0 < C / (r * y)).
    { apply Rdiv_lt_0_compat; [assumption | now apply Rmult_lt_0_compat]. }
    lra.
Qed.

Lemma annuity_grows_below_perpetuity_witness :
  (0 < 100 /\ 0 < 0.05)
  /\ exists a a' p,
       annuity_pv 100 0.05 (Z.of_nat 10) = Returned a
       /\ annuity_pv 100 0.05 (Z.of_nat 11) = Returned a'
       /\ perpetuity_pv 100 0.05 = Returned p
       /\ a < a' /\ a' < p.
Proof.
  split; [split; lra |].
  apply (annuity_grows_below_perpetuity 100 0.05 10); lra.
Defined.

(** X15.  The present value of a perpetuity, left for one year at simple
    interest at the same rate, earns exactly the payment. *)
Theorem perpetuity_earns_its_payment (C r : R) :
  r <> 0 ->
  exists p, perpetuity_pv C r = Returned p
            /\ simple_interest_fv p r 1 = p + C.
Proof.
  intros Hr. exists (C / r). split.
  - now apply truediv_nonzero.
  - unfold simple_interest_fv. now field.
Qed.

Lemma perpetuity_earns_its_payment_witness :
  0.05 <> 0
  /\ exists p, perpetuity_pv 100 0.05 = Returned p
               /\ simple_interest_fv p 0.05 1 = p + 100.
Proof.
  split; [lra |].
  apply perpetuity_earns_its_payment. lra.
Defined.

(** ** Effective rate: what it hands back *)

Lemma periodic_branch (r m : R) :
  effective_rate r (Some m) (Some "periodic")
  = (q <- truediv r m ;; p <- pow (1 + q) m ;; Returned (Float (p - 1))).
Proof.
  reflexivity.
Qed.

Lemma truediv_outcomes (x y : R) :
  truediv x y = Raised ZeroDivisionError \/ truediv x y = Returned (x / y).
Proof.
  unfold truediv. destruct (Req_dec_T y 0); [left | right]; reflexivity.
Qed.

Lemma pow_outcomes (x y : R) :
  pow x y = Raised ZeroDivisionError \/ pow x y = Complex
  \/ exists p, pow x y = Returned p.
Proof.
  unfold pow.
  destruct (Req_dec_T y 0); [right; right; eauto |].
  destruct (Req_dec_T x 0).
  - destruct (Rlt_dec y 0); [left; reflexivity | right; right; eauto].
  - destruct (Rlt_dec x 0); [| right; right; eauto].
    destruct (is_integral y); [right; right; eauto | right; left; reflexivity].
Qed.

(** X16.  An exception object comes back as a return value exactly when
    the method named is neither ["continuous"] nor ["periodic"], and it is
    then the [ValueError] with the fixed message. *)
Theorem effective_rate_error_object_iff (r : R) (m : option R)
  (method : string) (e : exception) :
  effective_rate r m (Some method) = Returned (ExceptionObject e)
  <-> (method <> "continuous" /\ method <> "periodic"
       /\ e = ValueError "The compounding method is not valid").
Proof.
  split.
  - unfold effective_rate. cbn [arg].
    destruct (String.eqb_spec method "continuous") as [_ | Hc];
      [discriminate |].
    destruct (String.eqb_spec method "periodic") as [_ | Hp].
    + destruct (truediv_outcomes r (arg 1 m)) as [-> | ->]; cbn [bind];
        [discriminate |].
      destruct (pow_outcomes (1 + r / arg 1 m) (arg 1 m))
        as [-> | [-> | [p ->]]]; cbn [bind]; discriminate.
    + intros H. inversion H. auto.
  - intros (Hc & Hp & ->). now apply effective_rate_unknown_method.
Qed.

Lemma effective_rate_error_object_iff_witness :
  ("bogus" <> "continuous" /\ "bogus" <> "periodic")
  /\ effective_rate 0.05 (Some 1) (Some "bogus")
     = Returned (ExceptionObject (ValueError "The compounding method is not valid")).
Proof.
  split; [split; discriminate |].
  apply effective_rate_error_object_iff.
  repeat split; discriminate.
Defined.



(** X18.  With the periodic method and one period a year, given or
    defaulted, the effective rate is the rate itself, for every rate. *)
Theorem effective_rate_annual_is_nominal (r : R) :
  effective_rate r (Some 1) (Some "periodic") = Returned (Float r)
  /\ effective_rate r None (Some "periodic") = Returned (Float r).
Proof.
  assert (E : effective_rate r (Some 1) (Some "periodic") = Returned (Float r)).
  { rewrite periodic_branch, truediv_by_one. cbn [bind].
    rewrite pow_one_exponent. cbn [bind]. do 2 f_equal. ring. }
  split; exact E.
Qed.

(** X19.  What the docstring says of the effective rate: annual
    compounding at the effective rate gives, over one year, the growth of
    the compounding it stands for -- [m] periods a year at rate [r] for the
    periodic method (frequency other than 0, positive growth factor),
    continuous compounding at rate [r] for the continuous method. *)
Theorem effective_rate_same_growth_over_one_year (P r m : R) :
  (m <> 0 -> 0 < 1 + r / m ->
   exists e, effective_rate r (Some m) (Some "periodic") = Returned (Float e)
             /\ compounded_interest_fv P e 1 1 = compounded_interest_fv P r 1 m)
  /\ (exists e, effective_rate r (Some m) (Some "continuous") = Returned (Float e)
                /\ compounded_interest_fv P e 1 1
                   = Returned (continuous_compounding_fv P r 1)).
Proof.
  split.
  - intros Hm Hbase. exists (Rpower (1 + r / m) m - 1). split.
    + rewrite periodic_branch, truediv_nonzero by assumption. cbn [bind].
      now rewrite pow_positive_base.
    + rewrite (compounded_interest_fv_defined P r 1 m) by assumption.
      unfold compounded_interest_fv.
      rewrite truediv_by_one. cbn [bind].
      rewrite !Rmult_1_l, pow_one_exponent. cbn [bind].
      f_equal. ring.
  - exists (exp r - 1). split; [reflexivity |].
    unfold compounded_interest_fv, continuous_compounding_fv, math_exp.
    rewrite truediv_by_one. cbn [bind].
    rewrite !Rmult_1_l, pow_one_exponent. cbn [bind].
    f_equal. ring.
Qed.

Lemma effective_rate_same_growth_over_one_year_witness :
  (12 <> 0 /\ 0 < 1 + 0.12 / 12)
  /\ exists e, effective_rate 0.12 (Some 12) (Some "periodic") = Returned (Float e)
               /\ compounded_interest_fv 1000 e 1 1
                  = compounded_interest_fv 1000 0.12 1 12.
Proof.
  split; [split; lra |].
  apply (effective_rate_same_growth_over_one_year 1000 0.12 12); lra.
Defined.

Lemma ln_growth_factor_bound (x : R) : 0 < 1 + x -> ln (1 + x) <= x.
Proof.
  intros Hpos.
  destruct (Rle_dec (ln (1 + x)) x) as [Hle | Hgt]; [assumption |].
  apply Rnot_le_lt in Hgt.
  apply exp_increasing in Hgt. rewrite exp_ln in Hgt by assumption.
  pose proof (exp_ineq1_le x). lra.
Qed.

(** X20.  For a positive frequency and a positive growth factor, the
    periodic effective rate never exceeds the continuous one. *)
Theorem effective_rate_periodic_at_most_continuous (r m : R) :
  0 < m -> 0 < 1 + r / m ->
  exists p c,
    effective_rate r (Some m) (Some "periodic") = Returned (Float p)
    /\ effective_rate r (Some m) (Some "continuous") = Returned (Float c)
    /\ p <= c.
Proof.
  intros Hm Hbase.
  exists (Rpower (1 + r / m) m - 1), (exp r - 1). repeat split.
  - rewrite periodic_branch, truediv_nonzero by lra. cbn [bind].
    now rewrite pow_positive_base.
  - apply Rplus_le_compat_r. unfold Rpower.
    apply exp_weakly_increasing.
    pose proof (ln_growth_factor_bound (r / m) Hbase) as Hln.
    replace r with (m * (r / m)) at 2 by (field; lra).
    apply Rmult_le_compat_l; lra.
Qed.

Lemma effective_rate_periodic_at_most_continuous_witness :
  (0 < 12 /\ 0 < 1 + 0.12 / 12)
  /\ exists p c,
       effective_rate 0.12 (Some 12) (Some "periodic") = Returned (Float p)
       /\ effective_rate 0.12 (Some 12) (Some "continuous") = Returned (Float c)
       /\ p <= c.
Proof.
  split; [split; lra |].
  apply effective_rate_periodic_at_most_continuous; lra.
Defined.

(** ** The perpetuity as the limit of the annuity *)

Lemma annuity_gap (C r : R) (n : nat) :
  0 < r ->
  C / r - discounted_payments C r n = C / r * (/ (1 + r)) ^ n.
Proof.
  intros Hr.
  rewrite <- geometric_discounting by lra.
  rewrite pow_inv.
  assert (Hx : (1 + r) ^ n <> 0) by (apply pow_nonzero; lra).
  field. split; [assumption | lra].
Qed.

(** X21.  For a positive payment and a positive rate, the present value
    of the annuity comes as close to that of the perpetuity as one likes
    once the number of payments is large enough. *)
Theorem annuity_tends_to_perpetuity (C r eps : R) :
  0 < C -> 0 < r -> 0 < eps ->
  exists N : nat, forall n : nat, (N <= n)%nat ->
    exists a p,
      annuity_pv C r (Z.of_nat n) = Returned a
      /\ perpetuity_pv C r = Returned p
      /\ Rabs (p - a) < eps.
Proof.
  intros HC Hr Heps.
  assert (Hratio : Rabs (/ (1 + r)) < 1).
  { rewrite Rabs_pos_eq by (left; apply Rinv_0_lt_compat; lra).
    rewrite <- Rinv_1. apply Rinv_lt_contravar; lra. }
  assert (Hy : 0 < eps * r / C).
  { apply Rdiv_lt_0_compat; [now apply Rmult_lt_0_compat | assumption]. }
  destruct (pow_lt_1_zero (/ (1 + r)) Hratio (eps * r / C) Hy) as [N HN].
  exists N. intros n Hn.
  exists (discounted_payments C r n), (C / r). repeat split.
  - apply annuity_pv_discounted_payments; lra.
  - unfold perpetuity_pv. apply truediv_nonzero. lra.
  - rewrite annuity_gap by assumption.
    specialize (HN n ltac:(lia)).
    assert (Hq : 0 < (/ (1 + r)) ^ n)
      by (apply pow_lt, Rinv_0_lt_compat; lra).
    rewrite Rabs_pos_eq in HN by lra.
    assert (Hcr : 0 < C / r) by now apply Rdiv_lt_0_compat.
    rewrite Rabs_pos_eq by (left; now apply Rmult_lt_0_compat).
    replace eps with (C / r * (eps * r / C)) by (field; split; lra).
    now apply Rmult_lt_compat_l.
Qed.

Lemma annuity_tends_to_perpetuity_witness :
  (0 < 100 /\ 0 < 0.05 /\ 0 < 1)
  /\ exists N : nat, forall n : nat, (N <= n)%nat ->
       exists a p,
         annuity_pv 100 0.05 (Z.of_nat n) = Returned a
         /\ perpetuity_pv 100 0.05 = Returned p
         /\ Rabs (p - a) < 1.
Proof.
  split; [repeat split; lra |].
  apply annuity_tends_to_perpetuity; lra.
Defined.
